(** * The ICO container assembler of the favicon generator

    A shallow embedding of [assembleIco]
    (src/pages/developers/FaviconGeneratorPage.jsx, lines 12-56) and of the
    part of the ECMAScript [ArrayBuffer] / [DataView] interface it uses,
    followed by the properties of the container it produces; then its two
    callers [generateIcoFromImage] and [generateIcoFromEmoji] (lines
    60-133), with the browser's rendering of one size as a parameter.

    Modelling conventions.
    - A JavaScript number that the routine handles is an integer: a list
      length or a cursor is a [nat], a value handed to a [DataView] setter
      is a [Z].  Doubles are exact on integers below 2^53, far above any
      length a JavaScript engine can hold.
    - A [Uint8Array] is a [list byte]; an [ArrayBuffer] is a [list byte]
      that is updated by index.
    - A thrown exception is [None]: the [RangeError] of a [DataView]
      setter whose element does not fit in the view, and the [RangeError]
      of [new ArrayBuffer(n)] when the engine cannot provide [n] bytes.
      [assembleIco] is the routine on an engine that provides every [n];
      it describes the buffer that is returned.  [assembleIco_on] is the
      same routine on an engine whose allocator can refuse, and is the
      one to ask whether a buffer is returned at all.
    - The [let] variables of the routine, which its closures update, are
      the fields of a record threaded through a state-and-error monad. *)

From Stdlib Require Import ZArith Lia.
From Stdlib Require Import Strings.Byte.
From Stdlib Require Strings.String.
From stdpp Require Import base option list.

Module Ico.

(** ** Numbers and bytes *)

(** The number a byte stands for. *)
Definition byte_to_Z (b : byte) : Z := Z.of_N (Byte.to_N b).

(** ECMAScript [ToUint8], [ToUint16], [ToUint32]: the value modulo 2^8,
    2^16, 2^32.  [ToUint8] returns the byte itself. *)
Definition ToUint8 (v : Z) : byte :=
  default x00 (Byte.of_N (Z.to_N (v mod 256))).
Definition ToUint16 (v : Z) : Z := (v mod 65536)%Z.
Definition ToUint32 (v : Z) : Z := (v mod 4294967296)%Z.

(** ECMAScript [NumericToRawBytes] with [isLittleEndian = true]: the [n]
    low-order bytes of [v], least significant first. *)
Fixpoint rawBytesLE (n : nat) (v : Z) : list byte :=
  match n with
  | O => []
  | S n' => ToUint8 v :: rawBytesLE n' (Z.shiftr v 8)
  end.

(** ECMAScript [RawBytesToNumeric] with [isLittleEndian = true]. *)
Fixpoint numericLE (raw : list byte) : Z :=
  match raw with
  | [] => 0%Z
  | b :: rest => (byte_to_Z b + 256 * numericLE rest)%Z
  end.

(** ** ArrayBuffer and DataView *)

Definition ArrayBuffer := list byte.

(** [new ArrayBuffer(byteLength)]: zero-filled. *)
Definition new_ArrayBuffer (byteLength : nat) : ArrayBuffer :=
  replicate byteLength x00.

(** [SetViewValue]: a [RangeError] unless the whole element lies inside
    the view; otherwise the raw bytes overwrite the buffer in place. *)
Definition SetViewValue (buf : ArrayBuffer) (byteOffset : nat)
    (raw : list byte) : option ArrayBuffer :=
  if decide (byteOffset + length raw ≤ length buf)
  then Some (list_inserts byteOffset raw buf)
  else None.

(** [GetViewValue]: the same range check, then the raw bytes. *)
Definition GetViewValue (buf : ArrayBuffer) (byteOffset size : nat)
    : option (list byte) :=
  if decide (byteOffset + size ≤ length buf)
  then Some (take size (drop byteOffset buf))
  else None.

Definition getUint8 (buf : ArrayBuffer) (byteOffset : nat) : option Z :=
  numericLE <$> GetViewValue buf byteOffset 1.
Definition getUint16 (buf : ArrayBuffer) (byteOffset : nat) : option Z :=
  numericLE <$> GetViewValue buf byteOffset 2.
Definition getUint32 (buf : ArrayBuffer) (byteOffset : nat) : option Z :=
  numericLE <$> GetViewValue buf byteOffset 4.

(** [buffer.slice(begin, begin + size)] for a range inside the buffer. *)
Definition slice (buf : ArrayBuffer) (begin size : nat) : list byte :=
  take size (drop begin buf).

(** ** The input *)

(** [{ width, height, data: Uint8Array }] *)
Record Image := mkImage { width : Z; height : Z; data : list byte }.

(** [img.data[i]]: the number held at index [i]; out of range the
    expression is [undefined], which every setter stores as 0. *)
Definition data_at (img : Image) (i : nat) : Z :=
  match data img !! i with
  | Some b => byte_to_Z b
  | None => 0%Z
  end.

(** ** The local variables and the monad *)

Record Locals := mkLocals {
  offset : nat;
  totalSize : nat;
  pos : nat;
  view : ArrayBuffer
}.

Definition Js (A : Type) : Type := Locals → option (A * Locals).

#[global] Instance Js_ret : MRet Js := λ A a s, Some (a, s).
#[global] Instance Js_bind : MBind Js := λ A B f m s,
  match m s with
  | Some (a, s') => f a s'
  | None => None
  end.

Definition gets {A} (f : Locals → A) : Js A := λ s, Some (f s, s).

Definition set_offset (n : nat) : Js () := λ s,
  Some ((), mkLocals n (totalSize s) (pos s) (view s)).
Definition set_totalSize (n : nat) : Js () := λ s,
  Some ((), mkLocals (offset s) n (pos s) (view s)).
Definition set_pos (n : nat) : Js () := λ s,
  Some ((), mkLocals (offset s) (totalSize s) n (view s)).
Definition set_view (b : ArrayBuffer) : Js () := λ s,
  Some ((), mkLocals (offset s) (totalSize s) (pos s) b).

(** [view.setUint8(p, v)], [view.setUint16(p, v, true)],
    [view.setUint32(p, v, true)] *)
Definition view_set (raw : list byte) (p : nat) : Js () := λ s,
  match SetViewValue (view s) p raw with
  | Some b => set_view b s
  | None => None
  end.
Definition setUint8 (p : nat) (v : Z) : Js () :=
  view_set [ToUint8 v] p.
Definition setUint16 (p : nat) (v : Z) : Js () :=
  view_set (rawBytesLE 2 (ToUint16 v)) p.
Definition setUint32 (p : nat) (v : Z) : Js () :=
  view_set (rawBytesLE 4 (ToUint32 v)) p.

(** [pos += n] *)
Definition pos_add (n : nat) : Js () :=
  p ← gets pos; set_pos (p + n).

(** [pos++] as an expression: the old value. *)
Definition pos_post_incr : Js nat :=
  p ← gets pos; set_pos (p + 1);; mret p.

(** [xs.forEach(f)] *)
Fixpoint forEach {A} (xs : list A) (f : A → Js ()) : Js () :=
  match xs with
  | [] => mret ()
  | x :: rest => f x;; forEach rest f
  end.

(** [for (let i = 0; i < n; i++) body(i)] *)
Definition for_upto (n : nat) (body : nat → Js ()) : Js () :=
  forEach (seq 0 n) body.

(** ** assembleIco *)

Definition assembleIco_body (images : list Image) : Js ArrayBuffer :=
  let count := length images in
  (* The header is 6 bytes, each directory entry is 16 bytes. *)
  set_offset (6 + count * 16);;
  o ← gets offset; set_totalSize o;;
  forEach images (λ img,
    t ← gets totalSize; set_totalSize (t + length (data img)));;
  t ← gets totalSize; set_view (new_ArrayBuffer t);;
  set_pos 0;;
  (* Write ICO header: *)
  p ← gets pos; setUint16 p 0;;
  pos_add 2;;
  p ← gets pos; setUint16 p 1;;
  pos_add 2;;
  p ← gets pos; setUint16 p (Z.of_nat count);;
  pos_add 2;;
  (* Write directory entries for each image. *)
  forEach images (λ img,
    let width := if (width img >=? 256)%Z then 0%Z else width img in
    let height := if (height img >=? 256)%Z then 0%Z else height img in
    p ← gets pos; setUint8 p width;; pos_add 1;;
    p ← gets pos; setUint8 p height;; pos_add 1;;
    p ← gets pos; setUint8 p 0;; pos_add 1;;
    p ← gets pos; setUint8 p 0;; pos_add 1;;
    p ← gets pos; setUint16 p 1;; pos_add 2;;
    p ← gets pos; setUint16 p 32;; pos_add 2;;
    p ← gets pos; setUint32 p (Z.of_nat (length (data img)));; pos_add 4;;
    p ← gets pos; o ← gets offset; setUint32 p (Z.of_nat o);; pos_add 4;;
    o ← gets offset; set_offset (o + length (data img)));;
  (* Write the image data one after another. *)
  forEach images (λ img,
    for_upto (length (data img)) (λ i,
      p ← pos_post_incr; setUint8 p (data_at img i)));;
  gets view.

(** The routine run in a frame whose locals hold [s0] before their
    declarations are reached. *)
Definition assembleIco_in (s0 : Locals) (images : list Image)
    : option ArrayBuffer :=
  fst <$> assembleIco_body images s0.

Definition fresh : Locals := mkLocals 0 0 0 [].

Definition assembleIco (images : list Image) : option ArrayBuffer :=
  assembleIco_in fresh images.

(** ** The routine on an engine whose allocator can refuse

    [new ArrayBuffer(totalSize)] at line 21 throws a [RangeError] when
    [totalSize] is above 2^53 - 1 (ECMAScript [ToIndex]) and whenever the
    engine cannot create a block of that size.  [allocatable n] tells
    whether the engine provides [n] bytes.  The statements are those of
    [assembleIco_body]; only the allocation differs. *)

Definition ArrayBuffer_alloc (allocatable : nat → bool) (byteLength : nat)
    : Js () := λ s,
  if allocatable byteLength
  then set_view (new_ArrayBuffer byteLength) s
  else None.

Definition assembleIco_body_on (allocatable : nat → bool)
    (images : list Image) : Js ArrayBuffer :=
  let count := length images in
  (* The header is 6 bytes, each directory entry is 16 bytes. *)
  set_offset (6 + count * 16);;
  o ← gets offset; set_totalSize o;;
  forEach images (λ img,
    t ← gets totalSize; set_totalSize (t + length (data img)));;
  t ← gets totalSize; ArrayBuffer_alloc allocatable t;;
  set_pos 0;;
  (* Write ICO header: *)
  p ← gets pos; setUint16 p 0;;
  pos_add 2;;
  p ← gets pos; setUint16 p 1;;
  pos_add 2;;
  p ← gets pos; setUint16 p (Z.of_nat count);;
  pos_add 2;;
  (* Write directory entries for each image. *)
  forEach images (λ img,
    let width := if (width img >=? 256)%Z then 0%Z else width img in
    let height := if (height img >=? 256)%Z then 0%Z else height img in
    p ← gets pos; setUint8 p width;; pos_add 1;;
    p ← gets pos; setUint8 p height;; pos_add 1;;
    p ← gets pos; setUint8 p 0;; pos_add 1;;
    p ← gets pos; setUint8 p 0;; pos_add 1;;
    p ← gets pos; setUint16 p 1;; pos_add 2;;
    p ← gets pos; setUint16 p 32;; pos_add 2;;
    p ← gets pos; setUint32 p (Z.of_nat (length (data img)));; pos_add 4;;
    p ← gets pos; o ← gets offset; setUint32 p (Z.of_nat o);; pos_add 4;;
    o ← gets offset; set_offset (o + length (data img)));;
  (* Write the image data one after another. *)
  forEach images (λ img,
    for_upto (length (data img)) (λ i,
      p ← pos_post_incr; setUint8 p (data_at img i)));;
  gets view.

Definition assembleIco_on (allocatable : nat → bool) (images : list Image)
    : option ArrayBuffer :=
  fst <$> assembleIco_body_on allocatable images fresh.

(** The most an engine may provide: every length up to 2^53 - 1. *)
Definition ecmaScriptLimit (byteLength : nat) : bool :=
  (Z.of_nat byteLength <=? 9007199254740991)%Z.

(** ** The two generators

    [generateIcoFromImage] (lines 60-96) and [generateIcoFromEmoji]
    (lines 100-133) build one promise per size, wait for all of them and
    hand the images to [assembleIco].  What happens inside one promise
    (canvas drawing, [canvas.toBlob(..., "image/png")], [FileReader]) is
    the browser's work and is a parameter here: for a source (an image
    URL, an emoji) and a size it gives the bytes of the PNG the promise
    is resolved with, or [None] when the promise is rejected ([img.onerror],
    a null blob, [reader.onerror]).  A settled promise is an [option]. *)

(** [const sizes = [16, 32, 48, 64]] *)
Definition sizes : list Z := [16; 32; 48; 64]%Z.

(** [Promise.all(promises)]: fulfilled with the values in the order of
    [promises] when all are fulfilled, rejected when one is rejected. *)
Definition Promise_all {A} (promises : list (option A)) : option (list A) :=
  mapM id promises.

Section Generators.
Variable imagePng : String.string → Z → option (list byte).
Variable emojiPng : String.string → Z → option (list byte).

Definition generateIcoFromImage (url : String.string) : option ArrayBuffer :=
  let promises :=
    (λ size,
       uint8Array ← imagePng url size;
       Some (mkImage size size uint8Array)) <$> sizes in
  Promise_all promises ≫= λ images, assembleIco images.

Definition generateIcoFromEmoji (emojiChar : String.string)
    : option ArrayBuffer :=
  let promises :=
    (λ size,
       uint8Array ← emojiPng emojiChar size;
       Some (mkImage size size uint8Array)) <$> sizes in
  Promise_all promises ≫= λ images, assembleIco images.
End Generators.

(** ** The container layout of the format description

    The three parts of an icon container, written as byte sequences: the
    6-byte header, the directory of 16-byte records, and the image data.
    These definitions follow the layout table of the format and are the
    reference the routine is compared with. *)

Definition header (count : nat) : list byte :=
  rawBytesLE 2 (ToUint16 0) ++ rawBytesLE 2 (ToUint16 1)
  ++ rawBytesLE 2 (ToUint16 (Z.of_nat count)).

(** The byte of a width or height: the dimension itself below 256, the
    sentinel 0 from 256 on. *)
Definition dimension (d : Z) : Z := if (d >=? 256)%Z then 0%Z else d.

Definition dirEntry (img : Image) (dataOffset : nat) : list byte :=
  [ToUint8 (dimension (width img)); ToUint8 (dimension (height img));
   ToUint8 0; ToUint8 0]
  ++ rawBytesLE 2 (ToUint16 1) ++ rawBytesLE 2 (ToUint16 32)
  ++ rawBytesLE 4 (ToUint32 (Z.of_nat (length (data img))))
  ++ rawBytesLE 4 (ToUint32 (Z.of_nat dataOffset)).

(** The records of [images], the payload of the first one at [dataOffset]. *)
Fixpoint directory (images : list Image) (dataOffset : nat) : list byte :=
  match images with
  | [] => []
  | img :: rest =>
      dirEntry img dataOffset ++ directory rest (dataOffset + length (data img))
  end.

Definition imageData (images : list Image) : list byte :=
  concat (data <$> images).

Definition container (images : list Image) : list byte :=
  header (length images)
  ++ directory images (6 + length images * 16)
  ++ imageData images.

(** Sum of the payload lengths of [images]. *)
Definition payloadSize (images : list Image) : nat :=
  sum_list_with (λ img, length (data img)) images.

(** Where the payload of entry [i] starts: after the header, the whole
    directory, and the payloads of the entries before [i]. *)
Definition payloadStart (images : list Image) (i : nat) : nat :=
  6 + length images * 16 + payloadSize (take i images).

(** ** Reading a container back *)

(** Byte offset of directory record [i]. *)
Definition recordAt (i : nat) : nat := 6 + 16 * i.

Definition headerReserved (buf : ArrayBuffer) := getUint16 buf 0.
Definition headerType (buf : ArrayBuffer) := getUint16 buf 2.
Definition headerCount (buf : ArrayBuffer) := getUint16 buf 4.

Definition entryWidth (buf : ArrayBuffer) (i : nat) := getUint8 buf (recordAt i).
Definition entryHeight (buf : ArrayBuffer) (i : nat) := getUint8 buf (recordAt i + 1).
Definition entryColorCount (buf : ArrayBuffer) (i : nat) := getUint8 buf (recordAt i + 2).
Definition entryReserved (buf : ArrayBuffer) (i : nat) := getUint8 buf (recordAt i + 3).
Definition entryPlanes (buf : ArrayBuffer) (i : nat) := getUint16 buf (recordAt i + 4).
Definition entryBitCount (buf : ArrayBuffer) (i : nat) := getUint16 buf (recordAt i + 6).
Definition entryDataSize (buf : ArrayBuffer) (i : nat) := getUint32 buf (recordAt i + 8).
Definition entryDataOffset (buf : ArrayBuffer) (i : nat) := getUint32 buf (recordAt i + 12).

(** ** Auxiliary definitions for the proofs and the examples *)

(** The shape of the locals while the buffer is being filled: [P] has
    been written and the cursor stands at its end; [z] bytes, still zero,
    remain. *)
Definition filling (o t : nat) (P : list byte) (z : nat) : Locals :=
  mkLocals o t (length P) (P ++ replicate z x00).

(** The two-image scenario: 16 and 32 payload bytes. *)
Definition twoImages : list Image :=
  [mkImage 16 16 (replicate 16 xaa); mkImage 32 32 (replicate 32 xbb)].

(** The same input built another way. *)
Definition twoImages' : list Image :=
  [mkImage (8 + 8) (4 * 4) (replicate 8 xaa ++ replicate 8 xaa);
   mkImage (2 ^ 5) 32 (replicate 32 xbb)].

(** Dimensions around the sentinel, and a non-square entry. *)
Definition sentinelImages : list Image :=
  [mkImage 256 256 [x01]; mkImage 255 255 [x02]; mkImage 16 16 [x03];
   mkImage 300 7 [x04; x05]].

(** The sentinel input with its large dimensions made larger still. *)
Definition sentinelImages' : list Image :=
  [mkImage 1000 256 [x01]; mkImage 255 255 [x02]; mkImage 16 16 [x03];
   mkImage 256 7 [x04; x05]].

(** The two-image scenario with other payload bytes of the same lengths. *)
Definition twoImages'' : list Image :=
  [mkImage 16 16 (replicate 16 x11); mkImage 32 32 (replicate 32 x22)].

(** 65536 entries with empty payloads. *)
Definition manyImages : list Image :=
  replicate (Z.to_nat 65536) (mkImage 16 16 []).

(** One entry whose payload has 2^32 bytes. *)
Definition hugeImage : Image :=
  mkImage 16 16 (replicate (Z.to_nat 4294967296) x00).

(** 2^21 entries that all hold the payload of [hugeImage]: an array whose
    elements refer to one image of 2^32 bytes. *)
Definition sharedHugeImages : list Image :=
  replicate (Z.to_nat 2097152) hugeImage.

(** The images the generators hand to [assembleIco] when the four
    promises are resolved with the payloads [ds]. *)
Definition sizedImages (ds : list (list byte)) : list Image :=
  zip_with (λ size d, mkImage size size d) sizes ds.

(** What one entry contributes to the header and the directory: its
    dimension bytes and the length of its payload. *)
Definition same_shape (a b : Image) : Prop :=
  dimension (width a) = dimension (width b)
  ∧ dimension (height a) = dimension (height b)
  ∧ length (data a) = length (data b).

(** Two entries that differ at most in how far a dimension exceeds 255. *)
Definition same_up_to_sentinel (a b : Image) : Prop :=
  data a = data b
  ∧ (width a = width b ∨ (256 ≤ width a)%Z ∧ (256 ≤ width b)%Z)
  ∧ (height a = height b ∨ (256 ≤ height a)%Z ∧ (256 ≤ height b)%Z).

(** An input within the limits of the format: at most 65535 entries, a
    container below 2^32 bytes, dimensions from 1 to 256. *)
Definition within_limits (images : list Image) : Prop :=
  (Z.of_nat (length images) ≤ 65535)%Z
  ∧ (Z.of_nat (6 + length images * 16 + payloadSize images) < 4294967296)%Z
  ∧ Forall (λ img, (1 ≤ width img ≤ 256)%Z ∧ (1 ≤ height img ≤ 256)%Z) images.

(** A source for the examples; the renderers below ignore it. *)
Definition sampleSource : String.string := String.EmptyString.

(** A renderer that always succeeds, with [size] payload bytes for [size],
    and one whose promise for size 48 is rejected. *)
Definition samplePng (source : String.string) (size : Z) : option (list byte) :=
  Some (replicate (Z.to_nat size) x2a).
Definition failingPng (source : String.string) (size : Z) : option (list byte) :=
  if (size =? 48)%Z then None else Some [x2a].

(** ** Bytes and little-endian fields *)

Lemma byte_to_Z_range (b : byte) : (0 ≤ byte_to_Z b < 256)%Z.
Proof.
  unfold byte_to_Z. pose proof (Byte.to_N_bounded b) as H.
  split; [apply N2Z.is_nonneg | lia].
Qed.

Lemma ToUint8_to_Z (v : Z) : byte_to_Z (ToUint8 v) = (v mod 256)%Z.
Proof.
  unfold ToUint8, byte_to_Z.
  pose proof (Z.mod_pos_bound v 256 eq_refl) as Hb.
  destruct (Byte.of_N (Z.to_N (v mod 256))) as [b|] eqn:E.
  - simpl. apply Byte.to_of_N in E. rewrite E. lia.
  - apply Byte.of_N_None_iff in E. lia.
Qed.

Lemma ToUint8_of_byte (b : byte) : ToUint8 (byte_to_Z b) = b.
Proof.
  unfold ToUint8. pose proof (byte_to_Z_range b) as Hb.
  rewrite Z.mod_small by lia. unfold byte_to_Z.
  rewrite N2Z.id, Byte.of_to_N. reflexivity.
Qed.

Lemma length_rawBytesLE (n : nat) (v : Z) : length (rawBytesLE n v) = n.
Proof. revert v. induction n as [|n IH]; intros v; simpl; [done | by rewrite IH]. Qed.

Lemma numericLE_rawBytesLE (n : nat) (v : Z) :
  numericLE (rawBytesLE n v) = (v mod 2 ^ (8 * Z.of_nat n))%Z.
Proof.
  revert v. induction n as [|n IH]; intros v.
  - simpl. by rewrite Z.mod_1_r.
  - cbn [rawBytesLE numericLE]. rewrite ToUint8_to_Z, IH, Z.shiftr_div_pow2 by lia.
    replace (8 * Z.of_nat (S n))%Z with (8 + 8 * Z.of_nat n)%Z by lia.
    rewrite Z.pow_add_r by lia. change (2 ^ 8)%Z with 256%Z.
    rewrite (Z.rem_mul_r v 256 (2 ^ (8 * Z.of_nat n))) by lia. reflexivity.
Qed.

Lemma numericLE_Uint8 (v : Z) : numericLE [ToUint8 v] = (v mod 256)%Z.
Proof. simpl. rewrite ToUint8_to_Z. lia. Qed.

Lemma numericLE_Uint16 (v : Z) : numericLE (rawBytesLE 2 (ToUint16 v)) = (v mod 65536)%Z.
Proof.
  rewrite numericLE_rawBytesLE. unfold ToUint16.
  change (2 ^ (8 * Z.of_nat 2))%Z with 65536%Z. by rewrite Z.mod_mod.
Qed.

Lemma numericLE_Uint32 (v : Z) :
  numericLE (rawBytesLE 4 (ToUint32 v)) = (v mod 4294967296)%Z.
Proof.
  rewrite numericLE_rawBytesLE. unfold ToUint32.
  change (2 ^ (8 * Z.of_nat 4))%Z with 4294967296%Z. by rewrite Z.mod_mod.
Qed.

(** ** Running the monad *)

Lemma run_bind {A B} (m : Js A) (f : A → Js B) (s s' : Locals) (a : A) :
  m s = Some (a, s') → (m ≫= f) s = f a s'.
Proof. intros H. unfold mbind, Js_bind. by rewrite H. Qed.

Lemma SetViewValue_filling (P raw : list byte) (z : nat) :
  length raw ≤ z →
  SetViewValue (P ++ replicate z x00) (length P) raw
  = Some ((P ++ raw) ++ replicate (z - length raw) x00).
Proof.
  intros Hz. unfold SetViewValue.
  rewrite decide_True by (rewrite length_app, length_replicate; lia).
  f_equal.
  replace z with (length raw + (z - length raw)) at 1 by lia.
  rewrite replicate_add.
  rewrite <- (Nat.add_0_r (length P)), list_inserts_app_r.
  rewrite list_inserts_0_r by (by rewrite length_replicate).
  by rewrite <- app_assoc.
Qed.

(** One setter call at the cursor followed by [pos += n]. *)
Lemma run_emit {A} (raw : list byte) (n : nat) (k : Js A) o t P z :
  length raw = n → n ≤ z →
  (p ← gets pos; view_set raw p;; pos_add n;; k) (filling o t P z)
  = k (filling o t (P ++ raw) (z - n)).
Proof.
  intros Hn Hz. subst n.
  unfold mbind, Js_bind, gets, view_set, filling. cbn [pos view].
  rewrite SetViewValue_filling by done.
  unfold set_view, pos_add, mbind, Js_bind, gets, set_pos.
  cbn [pos view offset totalSize]. by rewrite length_app.
Qed.

(** The same with the value read from [offset]. *)
Lemma run_emit_offset {A} (k : Js A) o t P z :
  4 ≤ z →
  (p ← gets pos; o' ← gets offset;
   view_set (rawBytesLE 4 (ToUint32 (Z.of_nat o'))) p;; pos_add 4;; k)
    (filling o t P z)
  = k (filling o t (P ++ rawBytesLE 4 (ToUint32 (Z.of_nat o))) (z - 4)).
Proof.
  intros Hz.
  change ((p ← gets pos; o' ← gets offset;
           view_set (rawBytesLE 4 (ToUint32 (Z.of_nat o'))) p;; pos_add 4;; k)
            (filling o t P z))
    with ((p ← gets pos; view_set (rawBytesLE 4 (ToUint32 (Z.of_nat o))) p;;
           pos_add 4;; k) (filling o t P z)).
  by rewrite run_emit.
Qed.

(** [view.setUint8(pos++, v)] *)
Lemma run_push (v : Z) o t P z :
  1 ≤ z →
  (p ← pos_post_incr; setUint8 p v) (filling o t P z)
  = Some ((), filling o t (P ++ [ToUint8 v]) (z - 1)).
Proof.
  intros Hz.
  unfold pos_post_incr, setUint8, mbind, Js_bind, gets, set_pos, mret, Js_ret,
    view_set, filling. cbn [pos view offset totalSize].
  rewrite SetViewValue_filling by done.
  unfold set_view. cbn [pos view offset totalSize].
  rewrite length_app. cbn [length]. reflexivity.
Qed.

(** *** The three loops *)

Lemma run_totalSize_loop (images : list Image) o t p v :
  forEach images (λ img,
    t ← gets totalSize; set_totalSize (t + length (data img)))
    (mkLocals o t p v)
  = Some ((), mkLocals o (t + payloadSize images) p v).
Proof.
  revert t. induction images as [|img rest IH]; intros t.
  - unfold payloadSize. simpl. by rewrite Nat.add_0_r.
  - cbn [forEach]. erewrite run_bind; [|reflexivity].
    cbn [offset totalSize pos view]. rewrite IH.
    unfold payloadSize. cbn [sum_list_with]. by rewrite Nat.add_assoc.
Qed.

Lemma run_directory_loop (images : list Image) o t P z :
  length images * 16 ≤ z →
  forEach images (λ img,
    let width := if (width img >=? 256)%Z then 0%Z else width img in
    let height := if (height img >=? 256)%Z then 0%Z else height img in
    p ← gets pos; setUint8 p width;; pos_add 1;;
    p ← gets pos; setUint8 p height;; pos_add 1;;
    p ← gets pos; setUint8 p 0;; pos_add 1;;
    p ← gets pos; setUint8 p 0;; pos_add 1;;
    p ← gets pos; setUint16 p 1;; pos_add 2;;
    p ← gets pos; setUint16 p 32;; pos_add 2;;
    p ← gets pos; setUint32 p (Z.of_nat (length (data img)));; pos_add 4;;
    p ← gets pos; o ← gets offset; setUint32 p (Z.of_nat o);; pos_add 4;;
    o ← gets offset; set_offset (o + length (data img)))
    (filling o t P z)
  = Some ((), filling (o + payloadSize images) t (P ++ directory images o)
                (z - length images * 16)).
Proof.
  revert o P z. induction images as [|img rest IH]; intros o P z Hz.
  - unfold payloadSize. simpl. by rewrite Nat.add_0_r, app_nil_r, Nat.sub_0_r.
  - cbn [length] in Hz. cbn [forEach].
    erewrite run_bind; cycle 1.
    { cbv zeta. unfold setUint8, setUint16, setUint32.
      do 7 (rewrite run_emit; [|by rewrite ?length_rawBytesLE|lia]).
      rewrite run_emit_offset by lia.
      reflexivity. }
    cbn [offset totalSize pos view filling].
    change (mkLocals ?o' ?t' (length ?Q) (?Q ++ replicate ?z' x00))
      with (filling o' t' Q z').
    rewrite IH by lia.
    unfold payloadSize. cbn [sum_list_with directory dirEntry length].
    unfold dimension. rewrite <- !app_assoc. cbn [app].
    do 2 f_equal. unfold filling. f_equal; [lia|].
    f_equal. f_equal. lia.
Qed.

Lemma run_copy_loop (img : Image) (pre rest : list byte) o t P z :
  data img = pre ++ rest → length rest ≤ z →
  forEach (seq (length pre) (length rest)) (λ i,
    p ← pos_post_incr; setUint8 p (data_at img i))
    (filling o t P z)
  = Some ((), filling o t (P ++ rest) (z - length rest)).
Proof.
  revert pre P z. induction rest as [|b rest IH]; intros pre P z Hd Hz.
  - simpl. by rewrite app_nil_r, Nat.sub_0_r.
  - cbn [length] in *. cbn [seq forEach].
    erewrite run_bind; [|apply run_push; lia].
    assert (data_at img (length pre) = byte_to_Z b) as ->.
    { unfold data_at. by rewrite Hd, list_lookup_middle. }
    rewrite ToUint8_of_byte.
    replace (S (length pre)) with (length (pre ++ [b]))
      by (rewrite length_app; simpl; lia).
    rewrite IH; [|by rewrite <- app_assoc|lia].
    rewrite <- app_assoc. cbn [app]. do 3 f_equal. lia.
Qed.

Lemma run_payload_loop (images : list Image) o t P z :
  payloadSize images ≤ z →
  forEach images (λ img,
    for_upto (length (data img)) (λ i,
      p ← pos_post_incr; setUint8 p (data_at img i)))
    (filling o t P z)
  = Some ((), filling o t (P ++ imageData images) (z - payloadSize images)).
Proof.
  revert P z. induction images as [|img rest IH]; intros P z Hz.
  - unfold payloadSize, imageData. simpl. by rewrite app_nil_r, Nat.sub_0_r.
  - unfold payloadSize in Hz. cbn [sum_list_with] in Hz. cbn [forEach].
    erewrite run_bind; cycle 1.
    { unfold for_upto. apply (run_copy_loop img []); [done | lia]. }
    fold (payloadSize rest) in Hz. rewrite IH by lia.
    unfold imageData, payloadSize. cbn [fmap list_fmap concat sum_list_with].
    rewrite <- app_assoc. do 3 f_equal. lia.
Qed.

Lemma length_header (n : nat) : length (header n) = 6.
Proof. reflexivity. Qed.

Lemma length_dirEntry (img : Image) (o : nat) : length (dirEntry img o) = 16.
Proof. reflexivity. Qed.

Lemma length_directory (images : list Image) (o : nat) :
  length (directory images o) = length images * 16.
Proof.
  revert o. induction images as [|img rest IH]; intros o; [done|].
  cbn [directory]. rewrite length_app, IH, length_dirEntry. simpl. lia.
Qed.

Lemma length_imageData (images : list Image) :
  length (imageData images) = payloadSize images.
Proof.
  unfold imageData, payloadSize.
  induction images as [|img rest IH]; [done|].
  cbn [fmap list_fmap concat sum_list_with]. by rewrite length_app, IH.
Qed.

Lemma length_container (images : list Image) :
  length (container images) = 6 + length images * 16 + payloadSize images.
Proof.
  unfold container.
  rewrite !length_app, length_header, length_directory, length_imageData. lia.
Qed.

(** *** The whole routine *)

(** From any locals, the routine returns the container of the layout
    description, with the cursor at the end of the buffer. *)
Lemma assembleIco_body_run (s0 : Locals) (images : list Image) :
  assembleIco_body images s0
  = Some (container images,
          mkLocals (6 + length images * 16 + payloadSize images)
                   (6 + length images * 16 + payloadSize images)
                   (length (container images))
                   (container images)).
Proof.
  unfold assembleIco_body. cbv zeta.
  erewrite run_bind; [|reflexivity].
  erewrite run_bind; [|reflexivity].
  erewrite run_bind; [|reflexivity].
  cbn [offset totalSize pos view].
  erewrite run_bind; [|apply run_totalSize_loop].
  erewrite run_bind; [|reflexivity].
  erewrite run_bind; [|reflexivity].
  erewrite run_bind; [|reflexivity].
  cbn [offset totalSize pos view]. unfold new_ArrayBuffer.
  set (hd := 6 + length images * 16). set (ps := payloadSize images).
  change (mkLocals hd (hd + ps) 0 (replicate (hd + ps) x00))
    with (filling hd (hd + ps) [] (hd + ps)).
  unfold setUint16.
  do 3 (rewrite run_emit; [|by rewrite ?length_rawBytesLE|lia]).
  erewrite run_bind; [|apply run_directory_loop; lia].
  erewrite run_bind; [|apply run_payload_loop; lia].
  unfold gets, filling. cbn [view]. fold ps.
  replace (hd + ps - 2 - 2 - 2 - length images * 16 - ps) with 0 by lia.
  cbn [replicate]. rewrite !app_nil_r. cbn [app].
  assert (((((rawBytesLE 2 (ToUint16 0) ++ rawBytesLE 2 (ToUint16 1))
             ++ rawBytesLE 2 (ToUint16 (Z.of_nat (length images))))
            ++ directory images hd) ++ imageData images)
          = container images) as ->; [|done].
  unfold container, header. by rewrite <- !app_assoc.
Qed.

Lemma assembleIco_in_container (s0 : Locals) (images : list Image) :
  assembleIco_in s0 images = Some (container images).
Proof. unfold assembleIco_in. by rewrite assembleIco_body_run. Qed.

Lemma assembleIco_container (images : list Image) :
  assembleIco images = Some (container images).
Proof. apply assembleIco_in_container. Qed.

(** ** Reading the container back *)

Lemma payloadSize_app (xs ys : list Image) :
  payloadSize (xs ++ ys) = payloadSize xs + payloadSize ys.
Proof. apply sum_list_with_app. Qed.

Lemma payloadSize_take_S (images : list Image) (i : nat) (img : Image) :
  images !! i = Some img →
  payloadSize (take (S i) images) = payloadSize (take i images) + length (data img).
Proof.
  intros Hi. rewrite (take_S_r _ _ _ Hi), payloadSize_app.
  unfold payloadSize at 2. simpl. lia.
Qed.

Lemma payloadSize_take_mono (images : list Image) (i j : nat) :
  i ≤ j → payloadSize (take i images) ≤ payloadSize (take j images).
Proof.
  intros Hij. replace j with (i + (j - i)) by lia.
  rewrite <- take_take_drop, payloadSize_app. lia.
Qed.

Lemma payloadSize_take_le (images : list Image) (i : nat) :
  payloadSize (take i images) ≤ payloadSize images.
Proof.
  rewrite <- (take_drop i images) at 2. rewrite payloadSize_app. lia.
Qed.

(** Payload regions follow one another in input order. *)
Lemma payloadStart_next (images : list Image) (i j : nat) (img : Image) :
  images !! i = Some img → i < j →
  payloadStart images i + length (data img) ≤ payloadStart images j.
Proof.
  intros Hi Hij. unfold payloadStart.
  pose proof (payloadSize_take_S _ _ _ Hi).
  pose proof (payloadSize_take_mono images (S i) j). lia.
Qed.

Lemma payloadStart_end (images : list Image) (i : nat) (img : Image) :
  images !! i = Some img →
  payloadStart images i + length (data img) ≤ length (container images).
Proof.
  intros Hi. rewrite length_container. unfold payloadStart.
  pose proof (payloadSize_take_S _ _ _ Hi).
  pose proof (payloadSize_take_le images (S i)). lia.
Qed.

(** Record [i] of a directory is the record of entry [i]. *)
Lemma directory_record (images : list Image) (o i : nat) (img : Image) :
  images !! i = Some img →
  take 16 (drop (16 * i) (directory images o))
  = dirEntry img (o + payloadSize (take i images)).
Proof.
  revert o i. induction images as [|x rest IH]; intros o i Hi; [done|].
  destruct i as [|i].
  - injection Hi as ->. unfold payloadSize. cbn [take sum_list_with].
    rewrite Nat.add_0_r. reflexivity.
  - cbn [lookup list_lookup] in Hi. cbn [directory].
    replace (16 * S i) with (length (dirEntry x o) + 16 * i)
      by (rewrite length_dirEntry; lia).
    rewrite drop_app_add, (IH _ _ Hi). f_equal.
    unfold payloadSize. cbn [take sum_list_with]. lia.
Qed.

Lemma container_record (images : list Image) (i : nat) (img : Image) :
  images !! i = Some img →
  take 16 (drop (recordAt i) (container images))
  = dirEntry img (payloadStart images i).
Proof.
  intros Hi. unfold container, recordAt.
  replace (6 + 16 * i) with (length (header (length images)) + 16 * i)
    by by rewrite length_header.
  rewrite drop_app_add, drop_app_le, take_app_le.
  - by apply directory_record.
  - rewrite length_drop, length_directory.
    apply lookup_lt_Some in Hi. lia.
  - rewrite length_directory. apply lookup_lt_Some in Hi. lia.
Qed.

Lemma container_imageData (images : list Image) :
  drop (6 + 16 * length images) (container images) = imageData images.
Proof.
  unfold container. rewrite app_assoc. apply drop_app_length'.
  rewrite length_app, length_header, length_directory. lia.
Qed.

Lemma imageData_split (images : list Image) (i : nat) (img : Image) :
  images !! i = Some img →
  imageData images
  = imageData (take i images) ++ data img ++ imageData (drop (S i) images).
Proof.
  intros Hi. rewrite <- (take_drop_middle _ _ _ Hi) at 1.
  unfold imageData. rewrite fmap_app, concat_app. reflexivity.
Qed.

(** The payload of entry [i] lies at [payloadStart images i]. *)
Lemma container_payload (images : list Image) (i : nat) (img : Image) :
  images !! i = Some img →
  slice (container images) (payloadStart images i) (length (data img))
  = data img.
Proof.
  intros Hi. unfold slice, payloadStart.
  replace (6 + length images * 16 + payloadSize (take i images))
    with ((6 + 16 * length images) + payloadSize (take i images)) by lia.
  rewrite <- drop_drop, container_imageData, (imageData_split _ _ _ Hi).
  rewrite drop_app_length' by by rewrite length_imageData.
  by rewrite take_app_length.
Qed.

(** A field of [size] bytes at [j] inside the 16-byte record at [a]. *)
Lemma GetViewValue_in_record (buf rec : list byte) (a j size : nat) :
  take 16 (drop a buf) = rec → length rec = 16 → j + size ≤ 16 →
  GetViewValue buf (a + j) size = Some (take size (drop j rec)).
Proof.
  intros Hrec Hlen Hj. unfold GetViewValue.
  assert (a + 16 ≤ length buf) as Hbuf.
  { rewrite <- Hrec, length_take, length_drop in Hlen. lia. }
  rewrite decide_True by lia. f_equal.
  rewrite <- Hrec, <- drop_drop, !take_drop_commute, take_take.
  by rewrite Nat.min_l by lia.
Qed.

Lemma GetViewValue_header (images : list Image) (j size : nat) :
  j + size ≤ 6 →
  GetViewValue (container images) j size
  = Some (take size (drop j (header (length images)))).
Proof.
  intros Hj. unfold GetViewValue.
  rewrite decide_True by (rewrite length_container; lia). f_equal.
  unfold container.
  rewrite drop_app_le, take_app_le; [done| |];
    rewrite ?length_drop, length_header; lia.
Qed.

(** *** The fields of the header and of a record *)

Ltac header_field j size :=
  unfold headerReserved, headerType, headerCount, getUint16;
  rewrite (GetViewValue_header _ j size) by lia;
  cbn [fmap option_fmap option_map]; f_equal.

Lemma container_headerReserved (images : list Image) :
  headerReserved (container images) = Some 0%Z.
Proof. header_field 0 2. Qed.

Lemma container_headerType (images : list Image) :
  headerType (container images) = Some 1%Z.
Proof. header_field 2 2. Qed.

Lemma container_headerCount (images : list Image) :
  headerCount (container images)
  = Some (Z.of_nat (length images) mod 65536)%Z.
Proof.
  header_field 4 2.
  change (take 2 (drop 4 (header (length images))))
    with (rawBytesLE 2 (ToUint16 (Z.of_nat (length images)))).
  apply numericLE_Uint16.
Qed.

Ltac record_field Hi j size :=
  unfold entryWidth, entryHeight, entryColorCount, entryReserved, entryPlanes,
    entryBitCount, entryDataSize, entryDataOffset, getUint8, getUint16, getUint32;
  rewrite (GetViewValue_in_record _ _ _ j size
             (container_record _ _ _ Hi) (length_dirEntry _ _)) by lia;
  cbn [fmap option_fmap option_map]; f_equal.

Section RecordFields.
Variables (images : list Image) (i : nat) (img : Image).
Hypothesis Hi : images !! i = Some img.

Lemma container_entryWidth :
  entryWidth (container images) i
  = Some (dimension (width img) mod 256)%Z.
Proof.
  unfold entryWidth. rewrite <- (Nat.add_0_r (recordAt i)).
  record_field Hi 0 1. apply numericLE_Uint8.
Qed.

Lemma container_entryHeight :
  entryHeight (container images) i
  = Some (dimension (height img) mod 256)%Z.
Proof. record_field Hi 1 1. apply numericLE_Uint8. Qed.

Lemma container_entryColorCount :
  entryColorCount (container images) i = Some 0%Z.
Proof. record_field Hi 2 1. Qed.

Lemma container_entryReserved :
  entryReserved (container images) i = Some 0%Z.
Proof. record_field Hi 3 1. Qed.

Lemma container_entryPlanes :
  entryPlanes (container images) i = Some 1%Z.
Proof. record_field Hi 4 2. Qed.

Lemma container_entryBitCount :
  entryBitCount (container images) i = Some 32%Z.
Proof. record_field Hi 6 2. Qed.

Lemma container_entryDataSize :
  entryDataSize (container images) i
  = Some (Z.of_nat (length (data img)) mod 4294967296)%Z.
Proof.
  record_field Hi 8 4.
  change (take 4 (drop 8 (dirEntry img ?o)))
    with (rawBytesLE 4 (ToUint32 (Z.of_nat (length (data img))))).
  apply numericLE_Uint32.
Qed.

Lemma container_entryDataOffset :
  entryDataOffset (container images) i
  = Some (Z.of_nat (payloadStart images i) mod 4294967296)%Z.
Proof.
  record_field Hi 12 4.
  change (take 4 (drop 12 (dirEntry img ?o)))
    with (rawBytesLE 4 (ToUint32 (Z.of_nat o))).
  apply numericLE_Uint32.
Qed.
End RecordFields.

(** A setter that returns wrote inside the buffer and kept its size. *)
Lemma SetViewValue_Some (buf buf' raw : list byte) (p : nat) :
  SetViewValue buf p raw = Some buf' →
  p + length raw ≤ length buf ∧ length buf' = length buf.
Proof.
  unfold SetViewValue. case_decide; [|done].
  intros [= <-]. by rewrite length_inserts.
Qed.

(** ** The routine evaluated on small inputs *)

Example twoImages_scenario :
  (assembleIco twoImages ≫= λ buf,
     Some (length buf, headerCount buf,
           entryDataOffset buf 0, entryDataOffset buf 1))
  = Some (86, Some 2%Z, Some 38%Z, Some 54%Z).
Proof. vm_compute. reflexivity. Qed.

Example sentinelImages_dimensions :
  (assembleIco sentinelImages ≫= λ buf,
     Some (entryWidth buf 0, entryWidth buf 1, entryWidth buf 2,
           entryWidth buf 3, entryHeight buf 3))
  = Some (Some 0%Z, Some 255%Z, Some 16%Z, Some 0%Z, Some 7%Z).
Proof. vm_compute. reflexivity. Qed.

(** ** Properties of the assembled container *)

(** C2.  For every list of N entries the returned buffer has exactly
    6 + 16*N + (sum of the payload lengths) bytes. *)
Theorem assembleIco_length (images : list Image) :
  length <$> assembleIco images
  = Some (6 + 16 * length images + payloadSize images).
Proof.
  rewrite assembleIco_container. cbn [fmap option_fmap option_map].
  rewrite length_container. f_equal. lia.
Qed.

(** C7.  On the empty list the routine raises nothing and returns the six
    header bytes alone: reserved 0, type 1, count 0, no directory record
    and no image data. *)
Theorem assembleIco_empty :
  assembleIco [] = Some [x00; x00; x01; x00; x00; x00]
  ∧ headerCount [x00; x00; x01; x00; x00; x00] = Some 0%Z.
Proof. split; vm_compute; reflexivity. Qed.

(** *** The routine and the allocator *)

(** The statements before the allocation leave [totalSize] and [offset]
    set and nothing else changed. *)
Lemma run_until_allocation {A} (k : nat → Js A) (images : list Image) s0 :
  (set_offset (6 + length images * 16);;
   o ← gets offset; set_totalSize o;;
   forEach images (λ img,
     t ← gets totalSize; set_totalSize (t + length (data img)));;
   t ← gets totalSize; k t) s0
  = k (6 + length images * 16 + payloadSize images)
      (mkLocals (6 + length images * 16)
                (6 + length images * 16 + payloadSize images)
                (pos s0) (view s0)).
Proof.
  erewrite run_bind; [|reflexivity].
  erewrite run_bind; [|reflexivity].
  erewrite run_bind; [|reflexivity].
  cbn [offset totalSize pos view].
  erewrite run_bind; [|apply run_totalSize_loop].
  erewrite run_bind; [|reflexivity].
  reflexivity.
Qed.

Lemma run_alloc_granted {A} (allocatable : nat → bool) (n : nat)
    (k : () → Js A) (s : Locals) :
  allocatable n = true →
  (ArrayBuffer_alloc allocatable n ≫= k) s
  = (set_view (new_ArrayBuffer n) ≫= k) s.
Proof.
  intros Ha. unfold mbind, Js_bind, ArrayBuffer_alloc. by rewrite Ha.
Qed.

Lemma run_alloc_refused {A} (allocatable : nat → bool) (n : nat)
    (k : () → Js A) (s : Locals) :
  allocatable n = false →
  (ArrayBuffer_alloc allocatable n ≫= k) s = None.
Proof.
  intros Ha. unfold mbind, Js_bind, ArrayBuffer_alloc. by rewrite Ha.
Qed.

(** On an engine that provides [totalSize] bytes the routine runs as
    [assembleIco_body] does; on one that does not, it throws. *)
Lemma assembleIco_body_on_run (allocatable : nat → bool)
    (s0 : Locals) (images : list Image) :
  assembleIco_body_on allocatable images s0
  = if allocatable (6 + length images * 16 + payloadSize images)
    then assembleIco_body images s0
    else None.
Proof.
  unfold assembleIco_body_on, assembleIco_body. cbv zeta.
  rewrite !run_until_allocation.
  destruct (allocatable _) eqn:Ha.
  - by rewrite run_alloc_granted.
  - by rewrite run_alloc_refused.
Qed.

Lemma payloadSize_replicate (n : nat) (img : Image) :
  payloadSize (replicate n img) = n * length (data img).
Proof.
  unfold payloadSize. induction n as [|n IH]; [done|].
  cbn [replicate sum_list_with]. rewrite IH. lia.
Qed.

(** C8, as amended.  For every input list whose [totalSize] the engine's
    allocator provides, whatever the dimensions of its entries, the
    routine raises no error and runs to completion: no setter call falls
    outside the buffer (each would return [None]) and the cursor ends
    exactly at the end of the buffer of [totalSize] bytes.  When the
    allocator refuses [totalSize] bytes, as every engine does above
    2^53 - 1, [new ArrayBuffer] throws and nothing is returned. *)
Theorem assembleIco_completes_when_allocated (allocatable : nat → bool)
    (s0 : Locals) (images : list Image) :
  (allocatable (6 + length images * 16 + payloadSize images) = true →
   ∃ buf s', assembleIco_body_on allocatable images s0 = Some (buf, s')
     ∧ view s' = buf
     ∧ length buf = totalSize s'
     ∧ pos s' = totalSize s'
     ∧ totalSize s' = 6 + length images * 16 + payloadSize images)
  ∧ (allocatable (6 + length images * 16 + payloadSize images) = false →
     assembleIco_body_on allocatable images s0 = None).
Proof.
  rewrite assembleIco_body_on_run. split; intros ->; [|done].
  eexists _, _. split; [apply assembleIco_body_run|].
  cbn [view totalSize pos]. by rewrite length_container.
Qed.

(** The amended C8 on the sentinel input, whose fourth entry is not
    square, on the engine that provides every length up to 2^53 - 1. *)
Lemma assembleIco_completes_witness :
  ecmaScriptLimit (6 + length sentinelImages * 16 + payloadSize sentinelImages)
  = true
  ∧ ∃ buf s', assembleIco_body_on ecmaScriptLimit sentinelImages fresh
              = Some (buf, s')
      ∧ length buf = 75 ∧ pos s' = 75.
Proof.
  assert (ecmaScriptLimit
            (6 + length sentinelImages * 16 + payloadSize sentinelImages)
          = true) as Ha by (vm_compute; reflexivity).
  split; [exact Ha|].
  destruct (assembleIco_completes_when_allocated ecmaScriptLimit fresh
              sentinelImages) as [Hrun _].
  destruct (Hrun Ha) as (buf & s' & Hbuf & _ & Hlen & Hpos & Htotal).
  exists buf, s'. split; [exact Hbuf|].
  rewrite Hlen, Hpos, Htotal. split; reflexivity.
Defined.

(** C8 as stated fails at 2^21 entries that share one payload of 2^32
    bytes: [totalSize] is above 2^53 - 1, so [new ArrayBuffer] throws a
    [RangeError] on every engine; here on the one that provides every
    length ECMAScript allows. *)
Lemma allocation_throws :
  (9007199254740991
   < Z.of_nat (6 + length sharedHugeImages * 16 + payloadSize sharedHugeImages))%Z
  ∧ assembleIco_on ecmaScriptLimit sharedHugeImages = None.
Proof.
  assert (9007199254740991
          < Z.of_nat (6 + length sharedHugeImages * 16
                      + payloadSize sharedHugeImages))%Z as Hbig.
  { unfold sharedHugeImages. rewrite payloadSize_replicate, length_replicate.
    unfold hugeImage. cbn [data]. rewrite length_replicate.
    rewrite !Nat2Z.inj_add, !Nat2Z.inj_mul, !Z2Nat.id by lia. lia. }
  split; [exact Hbig|].
  unfold assembleIco_on. rewrite assembleIco_body_on_run.
  unfold ecmaScriptLimit at 1.
  by rewrite (proj2 (Z.leb_gt _ _) Hbig).
Qed.

(** C3, as amended.  The first six bytes are, as little-endian 16-bit
    fields, reserved = 0, type = 1 and count = (number of entries) modulo
    65536; the count is the number of entries itself for every list of at
    most 65535 entries, in particular for 0, 1, 4 and 65535 entries. *)
Theorem header_fields (images : list Image) :
  ∃ buf, assembleIco images = Some buf
    ∧ headerReserved buf = Some 0%Z
    ∧ headerType buf = Some 1%Z
    ∧ headerCount buf = Some (Z.of_nat (length images) mod 65536)%Z
    ∧ ((Z.of_nat (length images) ≤ 65535)%Z →
       headerCount buf = Some (Z.of_nat (length images))).
Proof.
  exists (container images). split; [apply assembleIco_container|].
  rewrite container_headerReserved, container_headerType,
    container_headerCount.
  repeat split. intros Hn. f_equal. apply Z.mod_small. lia.
Qed.

(** The amended C3 at lists of 0, 1, 4 and 65535 entries. *)
Lemma header_fields_witness :
  (∃ buf, assembleIco [] = Some buf ∧ headerCount buf = Some 0%Z)
  ∧ (∃ buf, assembleIco (replicate 1 (mkImage 16 16 [])) = Some buf
       ∧ headerCount buf = Some 1%Z)
  ∧ (∃ buf, assembleIco (replicate 4 (mkImage 16 16 [])) = Some buf
       ∧ headerCount buf = Some 4%Z)
  ∧ (∃ buf, assembleIco (replicate (Z.to_nat 65535) (mkImage 16 16 [])) = Some buf
       ∧ headerCount buf = Some 65535%Z).
Proof.
  repeat split.
  - destruct (header_fields []) as (buf & Hbuf & _ & _ & _ & Hcount).
    exists buf. split; [done|]. apply Hcount. simpl. lia.
  - destruct (header_fields (replicate 1 (mkImage 16 16 [])))
      as (buf & Hbuf & _ & _ & _ & Hcount).
    exists buf. split; [done|]. apply Hcount. simpl. lia.
  - destruct (header_fields (replicate 4 (mkImage 16 16 [])))
      as (buf & Hbuf & _ & _ & _ & Hcount).
    exists buf. split; [done|]. apply Hcount. simpl. lia.
  - destruct (header_fields (replicate (Z.to_nat 65535) (mkImage 16 16 [])))
      as (buf & Hbuf & _ & _ & _ & Hcount).
    exists buf. split; [done|].
    rewrite length_replicate, Z2Nat.id in Hcount by lia. apply Hcount. lia.
Defined.

(** C3 as stated fails at 65536 entries: the count field reads 0. *)
Lemma header_count_wraps :
  ∃ buf, assembleIco manyImages = Some buf
    ∧ Z.of_nat (length manyImages) = 65536%Z
    ∧ headerCount buf = Some 0%Z
    ∧ headerCount buf ≠ Some (Z.of_nat (length manyImages)).
Proof.
  exists (container manyImages). split; [apply assembleIco_container|].
  assert (Z.of_nat (length manyImages) = 65536%Z) as Hlen.
  { unfold manyImages. rewrite length_replicate. lia. }
  rewrite container_headerCount, Hlen. repeat split. discriminate.
Qed.



(** C1, as amended.  For every list of entries and every index i, the
    payload of entry i occupies the bytes of the buffer from
    6 + 16*N + (sum of the payload lengths before i) for its own length,
    byte for byte, and the region ends before the region of every later
    entry begins; record i stores that start as dataOffset and that
    length as dataSize, each modulo 2^32.  When both are below 2^32 the
    two fields hold them exactly, and slicing the buffer at the stored
    offset for the stored size gives back the payload. *)
Theorem directory_offsets_and_payloads
    (images : list Image) (i : nat) (img : Image) :
  images !! i = Some img →
  ∃ buf, assembleIco images = Some buf
    ∧ payloadStart images i
      = 6 + 16 * length images + payloadSize (take i images)
    ∧ entryDataOffset buf i
      = Some (Z.of_nat (payloadStart images i) mod 4294967296)%Z
    ∧ entryDataSize buf i
      = Some (Z.of_nat (length (data img)) mod 4294967296)%Z
    ∧ slice buf (payloadStart images i) (length (data img)) = data img
    ∧ payloadStart images i + length (data img) ≤ length buf
    ∧ (∀ j, i < j →
         payloadStart images i + length (data img) ≤ payloadStart images j)
    ∧ ((Z.of_nat (payloadStart images i) < 4294967296)%Z →
       (Z.of_nat (length (data img)) < 4294967296)%Z →
       ∃ off size,
         entryDataOffset buf i = Some (Z.of_nat off)
         ∧ entryDataSize buf i = Some (Z.of_nat size)
         ∧ off = payloadStart images i
         ∧ size = length (data img)
         ∧ slice buf off size = data img).
Proof.
  intros Hi. exists (container images).
  split; [apply assembleIco_container|].
  rewrite (container_entryDataOffset _ _ _ Hi),
    (container_entryDataSize _ _ _ Hi), (container_payload _ _ _ Hi).
  repeat split.
  - unfold payloadStart. lia.
  - by apply payloadStart_end.
  - intros j Hij. by apply payloadStart_next.
  - intros Hoff Hsize.
    exists (payloadStart images i), (length (data img)).
    rewrite !Z.mod_small by lia. by rewrite (container_payload _ _ _ Hi).
Qed.

(** The amended C1 at the second entry of the two-image scenario: the
    stored offset is 54, the stored size 32. *)
Lemma directory_offsets_witness :
  twoImages !! 1 = Some (mkImage 32 32 (replicate 32 xbb))
  ∧ ∃ buf, assembleIco twoImages = Some buf
      ∧ entryDataOffset buf 1 = Some 54%Z
      ∧ entryDataSize buf 1 = Some 32%Z
      ∧ slice buf 54 32 = replicate 32 xbb.
Proof.
  split; [reflexivity|].
  destruct (directory_offsets_and_payloads twoImages 1
              (mkImage 32 32 (replicate 32 xbb)) eq_refl)
    as (buf & Hbuf & _ & Hoff & Hsize & Hslice & _).
  exists buf. repeat split; assumption.
Defined.

(** C1 as stated fails at a payload of 2^32 bytes: the dataSize field of
    its record reads 0. *)
Lemma dataSize_field_wraps :
  ∃ buf, assembleIco [hugeImage] = Some buf
    ∧ Z.of_nat (length (data hugeImage)) = 4294967296%Z
    ∧ entryDataSize buf 0 = Some 0%Z
    ∧ entryDataSize buf 0 ≠ Some (Z.of_nat (length (data hugeImage))).
Proof.
  exists (container [hugeImage]). split; [apply assembleIco_container|].
  assert (Z.of_nat (length (data hugeImage)) = 4294967296%Z) as Hlen.
  { unfold hugeImage. cbn [data]. rewrite length_replicate. lia. }
  rewrite (container_entryDataSize [hugeImage] 0 hugeImage eq_refl), Hlen.
  repeat split. discriminate.
Qed.

(** C4.  The width byte and the height byte of record i are the width
    and the height of entry i when the dimension is below 256, and the
    sentinel 0 when it is 256 or more.  Dimensions are the non-negative
    integers of the data model. *)
Theorem dimension_bytes (images : list Image) (i : nat) (img : Image) :
  images !! i = Some img →
  (0 ≤ width img)%Z → (0 ≤ height img)%Z →
  ∃ buf, assembleIco images = Some buf
    ∧ entryWidth buf i
      = Some (if (width img <? 256)%Z then width img else 0%Z)
    ∧ entryHeight buf i
      = Some (if (height img <? 256)%Z then height img else 0%Z).
Proof.
  intros Hi Hw Hh. exists (container images).
  split; [apply assembleIco_container|].
  rewrite (container_entryWidth _ _ _ Hi), (container_entryHeight _ _ _ Hi).
  unfold dimension. split; f_equal.
  - destruct (Z.ltb_spec (width img) 256), (Z.geb_spec (width img) 256);
      try lia; [by apply Z.mod_small | done].
  - destruct (Z.ltb_spec (height img) 256), (Z.geb_spec (height img) 256);
      try lia; [by apply Z.mod_small | done].
Qed.

(** C4 at widths 256, 255 and 16: the bytes are 0, 255 and 16. *)
Lemma dimension_bytes_witness :
  (∃ buf, assembleIco sentinelImages = Some buf ∧ entryWidth buf 0 = Some 0%Z)
  ∧ (∃ buf, assembleIco sentinelImages = Some buf
       ∧ entryWidth buf 1 = Some 255%Z)
  ∧ (∃ buf, assembleIco sentinelImages = Some buf
       ∧ entryWidth buf 2 = Some 16%Z).
Proof.
  repeat split.
  - destruct (dimension_bytes sentinelImages 0 (mkImage 256 256 [x01]) eq_refl)
      as (buf & Hbuf & Hw & _); [simpl; lia | simpl; lia |].
    exists buf. split; assumption.
  - destruct (dimension_bytes sentinelImages 1 (mkImage 255 255 [x02]) eq_refl)
      as (buf & Hbuf & Hw & _); [simpl; lia | simpl; lia |].
    exists buf. split; assumption.
  - destruct (dimension_bytes sentinelImages 2 (mkImage 16 16 [x03]) eq_refl)
      as (buf & Hbuf & Hw & _); [simpl; lia | simpl; lia |].
    exists buf. split; assumption.
Defined.

(** C5.  The buffer is the header, then the directory records in input
    order (record i is the record of entry i), then the payloads of all
    entries concatenated in input order with nothing between them. *)
Theorem order_preserved (images : list Image) :
  ∃ buf, assembleIco images = Some buf
    ∧ buf = header (length images)
            ++ directory images (6 + length images * 16)
            ++ concat (data <$> images)
    ∧ (∀ i img, images !! i = Some img →
         take 16 (drop (recordAt i) buf)
         = dirEntry img (payloadStart images i))
    ∧ drop (6 + 16 * length images) buf = concat (data <$> images).
Proof.
  exists (container images). split; [apply assembleIco_container|].
  split; [reflexivity|]. split.
  - intros i img Hi. by apply container_record.
  - apply container_imageData.
Qed.

(** C5 on the sentinel input: record 3 is the record of the fourth entry
    and the data section is the five payload bytes in input order. *)
Lemma order_preserved_witness :
  ∃ buf, assembleIco sentinelImages = Some buf
    ∧ take 16 (drop (recordAt 3) buf) = dirEntry (mkImage 300 7 [x04; x05]) 73
    ∧ drop 70 buf = [x01; x02; x03; x04; x05].
Proof.
  destruct (order_preserved sentinelImages) as (buf & Hbuf & _ & Hrec & Hdata).
  exists buf. split; [done|]. split.
  - apply (Hrec 3 (mkImage 300 7 [x04; x05]) eq_refl).
  - apply Hdata.
Defined.

(** C6.  In every directory record the colour-count byte and the
    reserved byte are 0, the colour-planes field is 1 and the
    bits-per-pixel field is 32, whatever the entry holds. *)
Theorem constant_record_fields (images : list Image) (i : nat) :
  i < length images →
  ∃ buf, assembleIco images = Some buf
    ∧ entryColorCount buf i = Some 0%Z
    ∧ entryReserved buf i = Some 0%Z
    ∧ entryPlanes buf i = Some 1%Z
    ∧ entryBitCount buf i = Some 32%Z.
Proof.
  intros Hlt. destruct (lookup_lt_is_Some_2 images i Hlt) as [img Hi].
  exists (container images). split; [apply assembleIco_container|].
  rewrite (container_entryColorCount _ _ _ Hi),
    (container_entryReserved _ _ _ Hi), (container_entryPlanes _ _ _ Hi),
    (container_entryBitCount _ _ _ Hi).
  done.
Qed.

(** C6 at the non-square fourth entry of the sentinel input. *)
Lemma constant_record_fields_witness :
  3 < length sentinelImages
  ∧ ∃ buf, assembleIco sentinelImages = Some buf
      ∧ entryColorCount buf 3 = Some 0%Z
      ∧ entryReserved buf 3 = Some 0%Z
      ∧ entryPlanes buf 3 = Some 1%Z
      ∧ entryBitCount buf 3 = Some 32%Z.
Proof.
  assert (3 < length sentinelImages) as Hlt by (simpl; lia).
  split; [exact Hlt|]. exact (constant_record_fields sentinelImages 3 Hlt).
Defined.

(** ** The generators *)

(** Reading entry [i] back out of a container below 2^32 bytes. *)
Lemma container_read_payload (images : list Image) (i : nat) (img : Image) :
  images !! i = Some img →
  (Z.of_nat (length (container images)) < 4294967296)%Z →
  ∃ off len,
    entryDataOffset (container images) i = Some (Z.of_nat off)
    ∧ entryDataSize (container images) i = Some (Z.of_nat len)
    ∧ off = payloadStart images i ∧ len = length (data img)
    ∧ slice (container images) off len = data img.
Proof.
  intros Hi Hlt. pose proof (payloadStart_end _ _ _ Hi) as Hend.
  exists (payloadStart images i), (length (data img)).
  rewrite (container_entryDataOffset _ _ _ Hi),
    (container_entryDataSize _ _ _ Hi), (container_payload _ _ _ Hi).
  rewrite !Z.mod_small by lia. done.
Qed.

Lemma option_bind_Some {A B} (x : A) (f : A → option B) : Some x ≫= f = f x.
Proof. reflexivity. Qed.

Section Pipeline.
Variable png : Z → option (list byte).

Let promises : list (option Image) :=
  (λ size, uint8Array ← png size; Some (mkImage size size uint8Array))
    <$> sizes.

Lemma promises_fulfilled (d16 d32 d48 d64 : list byte) :
  png 16 = Some d16 → png 32 = Some d32 →
  png 48 = Some d48 → png 64 = Some d64 →
  Promise_all promises = Some (sizedImages [d16; d32; d48; d64]).
Proof.
  intros H16 H32 H48 H64. unfold promises, Promise_all, sizes.
  cbn [fmap list_fmap]. rewrite H16, H32, H48, H64. reflexivity.
Qed.

Lemma promises_fulfilled_inv (images : list Image) :
  Promise_all promises = Some images →
  ∃ d16 d32 d48 d64,
    png 16 = Some d16 ∧ png 32 = Some d32
    ∧ png 48 = Some d48 ∧ png 64 = Some d64
    ∧ images = sizedImages [d16; d32; d48; d64].
Proof.
  unfold promises, Promise_all, sizes. cbn [fmap list_fmap].
  destruct (png 16) as [d16|] eqn:H16; [|done].
  destruct (png 32) as [d32|] eqn:H32; [|done].
  destruct (png 48) as [d48|] eqn:H48; [|done].
  destruct (png 64) as [d64|] eqn:H64; [|done].
  intros [= <-]. by exists d16, d32, d48, d64.
Qed.

Lemma promises_rejected :
  Promise_all promises = None ↔ ∃ size, size ∈ sizes ∧ png size = None.
Proof.
  split.
  - intros Hnone.
    destruct (png 16) as [d16|] eqn:H16;
      [|exists 16%Z; split; [unfold sizes; repeat constructor | done]].
    destruct (png 32) as [d32|] eqn:H32;
      [|exists 32%Z; split; [unfold sizes; repeat constructor | done]].
    destruct (png 48) as [d48|] eqn:H48;
      [|exists 48%Z; split; [unfold sizes; repeat constructor | done]].
    destruct (png 64) as [d64|] eqn:H64;
      [|exists 64%Z; split; [unfold sizes; repeat constructor | done]].
    by rewrite (promises_fulfilled _ _ _ _ H16 H32 H48 H64) in Hnone.
  - intros (size & Hin & Hnone).
    destruct (Promise_all promises) as [images|] eqn:Hall; [|done].
    destruct (promises_fulfilled_inv _ Hall)
      as (d16 & d32 & d48 & d64 & H16 & H32 & H48 & H64 & _).
    unfold sizes in Hin. rewrite !elem_of_cons, elem_of_nil in Hin.
    destruct Hin as [->|[->|[->|[->|[]]]]]; congruence.
Qed.
Let generated : option ArrayBuffer :=
  Promise_all promises ≫= λ images, assembleIco images.

Lemma generated_layout (d16 d32 d48 d64 : list byte) :
  png 16 = Some d16 → png 32 = Some d32 →
  png 48 = Some d48 → png 64 = Some d64 →
  ∃ buf, generated = Some buf
    ∧ headerCount buf = Some 4%Z
    ∧ length buf = 70 + length d16 + length d32 + length d48 + length d64
    ∧ (∀ i size, sizes !! i = Some size →
         entryWidth buf i = Some size ∧ entryHeight buf i = Some size)
    ∧ entryDataOffset buf 0 = Some 70%Z
    ∧ drop 70 buf = d16 ++ d32 ++ d48 ++ d64.
Proof.
  intros H16 H32 H48 H64. unfold generated.
  rewrite (promises_fulfilled _ _ _ _ H16 H32 H48 H64).
  set (images := sizedImages [d16; d32; d48; d64]).
  exists (container images). split; [apply assembleIco_container|].
  split; [by rewrite container_headerCount|].
  split.
  { rewrite length_container. unfold images, payloadSize. simpl. lia. }
  split.
  { intros i size Hi.
    destruct i as [|[|[|[|i]]]]; [injection Hi as <-..|done].
    - by rewrite (container_entryWidth images 0 _ eq_refl),
        (container_entryHeight images 0 _ eq_refl).
    - by rewrite (container_entryWidth images 1 _ eq_refl),
        (container_entryHeight images 1 _ eq_refl).
    - by rewrite (container_entryWidth images 2 _ eq_refl),
        (container_entryHeight images 2 _ eq_refl).
    - by rewrite (container_entryWidth images 3 _ eq_refl),
        (container_entryHeight images 3 _ eq_refl). }
  split.
  { by rewrite (container_entryDataOffset images 0 _ eq_refl). }
  change 70 with (6 + 16 * length images). rewrite container_imageData.
  unfold images, imageData. simpl. by rewrite app_nil_r.
Qed.

Lemma generated_payloads (buf : ArrayBuffer) :
  generated = Some buf →
  (Z.of_nat (length buf) < 4294967296)%Z →
  ∀ i size, sizes !! i = Some size →
    ∃ d off len,
      png size = Some d
      ∧ entryWidth buf i = Some size ∧ entryHeight buf i = Some size
      ∧ entryDataOffset buf i = Some (Z.of_nat off)
      ∧ entryDataSize buf i = Some (Z.of_nat len)
      ∧ slice buf off len = d.
Proof.
  unfold generated. intros Hgen Hlt i size Hi.
  destruct (Promise_all promises) as [images|] eqn:Hall; [|done].
  destruct (promises_fulfilled_inv _ Hall)
    as (d16 & d32 & d48 & d64 & H16 & H32 & H48 & H64 & ->).
  rewrite option_bind_Some, assembleIco_container in Hgen.
  injection Hgen as <-.
  set (images := sizedImages [d16; d32; d48; d64]) in *.
  assert (∀ j d, images !! j = Some (mkImage size size d) →
            (dimension size mod 256 = size)%Z → png size = Some d →
            ∃ d off len,
              png size = Some d
              ∧ entryWidth (container images) j = Some size
              ∧ entryHeight (container images) j = Some size
              ∧ entryDataOffset (container images) j = Some (Z.of_nat off)
              ∧ entryDataSize (container images) j = Some (Z.of_nat len)
              ∧ slice (container images) off len = d) as Hread.
  { intros j d Hj Hdim Hd.
    destruct (container_read_payload _ _ _ Hj Hlt)
      as (off & len & Hoff & Hlen & _ & _ & Hslice).
    exists d, off, len.
    rewrite (container_entryWidth _ _ _ Hj), (container_entryHeight _ _ _ Hj).
    cbn [width height]. by rewrite Hdim. }
  destruct i as [|[|[|[|i]]]]; try done; injection Hi as <-.
  - by apply (Hread 0 d16).
  - by apply (Hread 1 d32).
  - by apply (Hread 2 d48).
  - by apply (Hread 3 d64).
Qed.

Lemma generated_rejected :
  generated = None ↔ ∃ size, size ∈ sizes ∧ png size = None.
Proof.
  rewrite <- promises_rejected. unfold generated.
  destruct (Promise_all promises) as [images|]; [|done].
  rewrite option_bind_Some, assembleIco_container. done.
Qed.
End Pipeline.

(** ** Properties of the two generators *)

(** X1.  When the four promises of [generateIcoFromImage] are resolved, the
    result is an icon container of exactly four entries: the count field
    is 4, records 0 to 3 carry the dimensions 16, 32, 48 and 64 (width
    and height alike, none replaced by the sentinel), the image data
    starts at byte 70 and is the four PNG payloads in the order of
    [sizes], and nothing follows them. *)
Theorem generateIcoFromImage_layout
    (imagePng : String.string → Z → option (list byte)) (url : String.string)
    (d16 d32 d48 d64 : list byte) :
  imagePng url 16%Z = Some d16 → imagePng url 32%Z = Some d32 →
  imagePng url 48%Z = Some d48 → imagePng url 64%Z = Some d64 →
  ∃ buf, generateIcoFromImage imagePng url = Some buf
    ∧ headerCount buf = Some 4%Z
    ∧ length buf = 70 + length d16 + length d32 + length d48 + length d64
    ∧ (∀ i size, sizes !! i = Some size →
         entryWidth buf i = Some size ∧ entryHeight buf i = Some size)
    ∧ entryDataOffset buf 0 = Some 70%Z
    ∧ drop 70 buf = d16 ++ d32 ++ d48 ++ d64.
Proof. apply (generated_layout (imagePng url)). Qed.

Lemma generateIcoFromImage_layout_witness :
  ∃ buf, generateIcoFromImage samplePng sampleSource = Some buf
    ∧ headerCount buf = Some 4%Z
    ∧ length buf = 230
    ∧ entryWidth buf 3 = Some 64%Z.
Proof.
  destruct (generateIcoFromImage_layout samplePng sampleSource
              (replicate 16 x2a) (replicate 32 x2a)
              (replicate 48 x2a) (replicate 64 x2a)
              eq_refl eq_refl eq_refl eq_refl)
    as (buf & Hbuf & Hcount & Hlen & Hdim & _).
  exists buf. repeat split; [done..|].
  apply (Hdim 3 64%Z eq_refl).
Defined.

(** X2.  In a container that [generateIcoFromImage] returned and that is
    shorter than 2^32 bytes, the record at the position of each size
    carries that size as width and height, and slicing the container at
    the record's stored offset for its stored size gives back exactly
    the PNG the promise of that size was resolved with. *)
Theorem generateIcoFromImage_payloads
    (imagePng : String.string → Z → option (list byte)) (url : String.string)
    (buf : ArrayBuffer) :
  generateIcoFromImage imagePng url = Some buf →
  (Z.of_nat (length buf) < 4294967296)%Z →
  ∀ i size, sizes !! i = Some size →
    ∃ d off len,
      imagePng url size = Some d
      ∧ entryWidth buf i = Some size ∧ entryHeight buf i = Some size
      ∧ entryDataOffset buf i = Some (Z.of_nat off)
      ∧ entryDataSize buf i = Some (Z.of_nat len)
      ∧ slice buf off len = d.
Proof. apply (generated_payloads (imagePng url)). Qed.

Lemma generateIcoFromImage_payloads_witness :
  ∃ buf off len,
    generateIcoFromImage samplePng sampleSource = Some buf
    ∧ entryDataOffset buf 2 = Some (Z.of_nat off)
    ∧ entryDataSize buf 2 = Some (Z.of_nat len)
    ∧ slice buf off len = replicate 48 x2a.
Proof.
  pose (buf := container (sizedImages
          [replicate 16 x2a; replicate 32 x2a;
           replicate 48 x2a; replicate 64 x2a])).
  assert (generateIcoFromImage samplePng sampleSource = Some buf) as Hgen
    by (vm_compute; reflexivity).
  assert (Z.of_nat (length buf) < 4294967296)%Z as Hlt
    by (vm_compute; reflexivity).
  destruct (generateIcoFromImage_payloads samplePng sampleSource buf Hgen Hlt
              2 48%Z eq_refl)
    as (d & off & len & Hd & _ & _ & Hoff & Hlen & Hslice).
  injection Hd as <-.
  exists buf, off, len. repeat split; assumption.
Defined.

(** X3.  [generateIcoFromImage] is rejected exactly when the promise of
    one of the four sizes is rejected; it then returns no container at
    all, never one with fewer entries. *)
Theorem generateIcoFromImage_rejected
    (imagePng : String.string → Z → option (list byte)) (url : String.string) :
  generateIcoFromImage imagePng url = None
  ↔ ∃ size, size ∈ sizes ∧ imagePng url size = None.
Proof. apply (generated_rejected (imagePng url)). Qed.

Lemma generateIcoFromImage_rejected_witness :
  generateIcoFromImage failingPng sampleSource = None.
Proof.
  apply generateIcoFromImage_rejected. exists 48%Z.
  split; [unfold sizes; repeat constructor | reflexivity].
Defined.

(** X4.  When the four promises of [generateIcoFromEmoji] are resolved, the
    result is an icon container of exactly four entries: the count field
    is 4, records 0 to 3 carry the dimensions 16, 32, 48 and 64 (width
    and height alike, none replaced by the sentinel), the image data
    starts at byte 70 and is the four PNG payloads in the order of
    [sizes], and nothing follows them. *)
Theorem generateIcoFromEmoji_layout
    (emojiPng : String.string → Z → option (list byte)) (emojiChar : String.string)
    (d16 d32 d48 d64 : list byte) :
  emojiPng emojiChar 16%Z = Some d16 → emojiPng emojiChar 32%Z = Some d32 →
  emojiPng emojiChar 48%Z = Some d48 → emojiPng emojiChar 64%Z = Some d64 →
  ∃ buf, generateIcoFromEmoji emojiPng emojiChar = Some buf
    ∧ headerCount buf = Some 4%Z
    ∧ length buf = 70 + length d16 + length d32 + length d48 + length d64
    ∧ (∀ i size, sizes !! i = Some size →
         entryWidth buf i = Some size ∧ entryHeight buf i = Some size)
    ∧ entryDataOffset buf 0 = Some 70%Z
    ∧ drop 70 buf = d16 ++ d32 ++ d48 ++ d64.
Proof. apply (generated_layout (emojiPng emojiChar)). Qed.

Lemma generateIcoFromEmoji_layout_witness :
  ∃ buf, generateIcoFromEmoji samplePng sampleSource = Some buf
    ∧ headerCount buf = Some 4%Z
    ∧ length buf = 230
    ∧ entryWidth buf 3 = Some 64%Z.
Proof.
  destruct (generateIcoFromEmoji_layout samplePng sampleSource
              (replicate 16 x2a) (replicate 32 x2a)
              (replicate 48 x2a) (replicate 64 x2a)
              eq_refl eq_refl eq_refl eq_refl)
    as (buf & Hbuf & Hcount & Hlen & Hdim & _).
  exists buf. repeat split; [done..|].
  apply (Hdim 3 64%Z eq_refl).
Defined.

(** X5.  In a container that [generateIcoFromEmoji] returned and that is
    shorter than 2^32 bytes, the record at the position of each size
    carries that size as width and height, and slicing the container at
    the record's stored offset for its stored size gives back exactly
    the PNG the promise of that size was resolved with. *)
Theorem generateIcoFromEmoji_payloads
    (emojiPng : String.string → Z → option (list byte)) (emojiChar : String.string)
    (buf : ArrayBuffer) :
  generateIcoFromEmoji emojiPng emojiChar = Some buf →
  (Z.of_nat (length buf) < 4294967296)%Z →
  ∀ i size, sizes !! i = Some size →
    ∃ d off len,
      emojiPng emojiChar size = Some d
      ∧ entryWidth buf i = Some size ∧ entryHeight buf i = Some size
      ∧ entryDataOffset buf i = Some (Z.of_nat off)
      ∧ entryDataSize buf i = Some (Z.of_nat len)
      ∧ slice buf off len = d.
Proof. apply (generated_payloads (emojiPng emojiChar)). Qed.

Lemma generateIcoFromEmoji_payloads_witness :
  ∃ buf off len,
    generateIcoFromEmoji samplePng sampleSource = Some buf
    ∧ entryDataOffset buf 2 = Some (Z.of_nat off)
    ∧ entryDataSize buf 2 = Some (Z.of_nat len)
    ∧ slice buf off len = replicate 48 x2a.
Proof.
  pose (buf := container (sizedImages
          [replicate 16 x2a; replicate 32 x2a;
           replicate 48 x2a; replicate 64 x2a])).
  assert (generateIcoFromEmoji samplePng sampleSource = Some buf) as Hgen
    by (vm_compute; reflexivity).
  assert (Z.of_nat (length buf) < 4294967296)%Z as Hlt
    by (vm_compute; reflexivity).
  destruct (generateIcoFromEmoji_payloads samplePng sampleSource buf Hgen Hlt
              2 48%Z eq_refl)
    as (d & off & len & Hd & _ & _ & Hoff & Hlen & Hslice).
  injection Hd as <-.
  exists buf, off, len. repeat split; assumption.
Defined.

(** X6.  [generateIcoFromEmoji] is rejected exactly when the promise of
    one of the four sizes is rejected; it then returns no container at
    all, never one with fewer entries. *)
Theorem generateIcoFromEmoji_rejected
    (emojiPng : String.string → Z → option (list byte)) (emojiChar : String.string) :
  generateIcoFromEmoji emojiPng emojiChar = None
  ↔ ∃ size, size ∈ sizes ∧ emojiPng emojiChar size = None.
Proof. apply (generated_rejected (emojiPng emojiChar)). Qed.

Lemma generateIcoFromEmoji_rejected_witness :
  generateIcoFromEmoji failingPng sampleSource = None.
Proof.
  apply generateIcoFromEmoji_rejected. exists 48%Z.
  split; [unfold sizes; repeat constructor | reflexivity].
Defined.

(** ** Further properties of the assembled container *)

(** X7.  The stored offsets form a chain: the offset of the first record
    is 6 + 16*N, and the offset of each later record is the offset of the
    record before it plus that record's size, all modulo 2^32. *)
Theorem offsets_chain (images : list Image) :
  ∃ buf, assembleIco images = Some buf
    ∧ (0 < length images →
       entryDataOffset buf 0
       = Some (Z.of_nat (6 + 16 * length images) mod 4294967296)%Z)
    ∧ ∀ i, S i < length images →
        ∃ off size,
          entryDataOffset buf i = Some off
          ∧ entryDataSize buf i = Some size
          ∧ entryDataOffset buf (S i) = Some ((off + size) mod 4294967296)%Z.
Proof.
  exists (container images). split; [apply assembleIco_container|]. split.
  - intros Hlt. destruct (lookup_lt_is_Some_2 images 0 Hlt) as [img Hi].
    rewrite (container_entryDataOffset _ _ _ Hi). unfold payloadStart.
    rewrite take_0. unfold payloadSize. cbn [sum_list_with].
    do 3 f_equal. lia.
  - intros i Hlt.
    destruct (lookup_lt_is_Some_2 images i) as [img Hi]; [lia|].
    destruct (lookup_lt_is_Some_2 images (S i) Hlt) as [img' Hi'].
    eexists _, _.
    rewrite (container_entryDataOffset _ _ _ Hi),
      (container_entryDataSize _ _ _ Hi),
      (container_entryDataOffset _ _ _ Hi').
    repeat split. f_equal. rewrite <- Z.add_mod by lia. f_equal.
    unfold payloadStart. rewrite (payloadSize_take_S _ _ _ Hi). lia.
Qed.

Lemma offsets_chain_witness :
  ∃ buf off size,
    assembleIco twoImages = Some buf
    ∧ entryDataOffset buf 0 = Some 38%Z
    ∧ entryDataOffset buf 0 = Some off
    ∧ entryDataSize buf 0 = Some size
    ∧ entryDataOffset buf 1 = Some ((off + size) mod 4294967296)%Z.
Proof.
  destruct (offsets_chain twoImages) as (buf & Hbuf & Hfirst & Hnext).
  destruct (Hnext 0) as (off & size & Hoff & Hsize & Hoff'); [simpl; lia|].
  exists buf, off, size. repeat split; try assumption.
  apply Hfirst. simpl. lia.
Defined.

(** X8.  In a container below 2^32 bytes the payload of the last entry
    ends exactly where the file ends: the stored offset plus the stored
    size of the last record is the length of the returned buffer. *)
Theorem last_payload_ends_buffer (images : list Image) (i : nat) :
  S i = length images →
  (Z.of_nat (6 + 16 * length images + payloadSize images) < 4294967296)%Z →
  ∃ buf off size,
    assembleIco images = Some buf
    ∧ entryDataOffset buf i = Some off
    ∧ entryDataSize buf i = Some size
    ∧ (off + size)%Z = Z.of_nat (length buf).
Proof.
  intros Hlast Hlt.
  destruct (lookup_lt_is_Some_2 images i) as [img Hi]; [lia|].
  assert (Z.of_nat (length (container images)) < 4294967296)%Z as Hlt'
    by (rewrite length_container; lia).
  destruct (container_read_payload _ _ _ Hi Hlt')
    as (off & len & Hoff & Hlen & -> & -> & _).
  exists (container images), (Z.of_nat (payloadStart images i)),
    (Z.of_nat (length (data img))).
  split; [apply assembleIco_container|]. split; [done|]. split; [done|].
  rewrite length_container. unfold payloadStart.
  pose proof (payloadSize_take_S _ _ _ Hi) as Hsum.
  rewrite Hlast, take_ge in Hsum by lia. lia.
Qed.

Lemma last_payload_witness :
  ∃ buf off size,
    assembleIco twoImages = Some buf
    ∧ entryDataOffset buf 1 = Some off
    ∧ entryDataSize buf 1 = Some size
    ∧ (off + size)%Z = Z.of_nat (length buf).
Proof.
  apply (last_payload_ends_buffer twoImages 1); [reflexivity|].
  vm_compute. reflexivity.
Defined.

(** *** What the container keeps of its input *)

Lemma dirEntry_same_shape (a b : Image) (o : nat) :
  same_shape a b → dirEntry a o = dirEntry b o.
Proof. intros (Hw & Hh & Hlen). unfold dirEntry. by rewrite Hw, Hh, Hlen. Qed.

Lemma directory_same_shape (xs ys : list Image) (o : nat) :
  Forall2 same_shape xs ys → directory xs o = directory ys o.
Proof.
  intros Hshape. revert o.
  induction Hshape as [|a b xs ys Hab _ IH]; intros o; [done|].
  cbn [directory]. rewrite (dirEntry_same_shape _ _ _ Hab).
  destruct Hab as (_ & _ & ->). by rewrite IH.
Qed.

Lemma dirEntry_inv (a b : Image) (o : nat) :
  dirEntry a o = dirEntry b o →
  (dimension (width a) mod 256 = dimension (width b) mod 256)%Z
  ∧ (dimension (height a) mod 256 = dimension (height b) mod 256)%Z
  ∧ (Z.of_nat (length (data a)) mod 4294967296
     = Z.of_nat (length (data b)) mod 4294967296)%Z.
Proof.
  intros Heq. repeat split.
  - apply (f_equal (λ l, numericLE (take 1 l))) in Heq.
    change (numericLE [ToUint8 (dimension (width a))]
            = numericLE [ToUint8 (dimension (width b))]) in Heq.
    by rewrite !numericLE_Uint8 in Heq.
  - apply (f_equal (λ l, numericLE (take 1 (drop 1 l)))) in Heq.
    change (numericLE [ToUint8 (dimension (height a))]
            = numericLE [ToUint8 (dimension (height b))]) in Heq.
    by rewrite !numericLE_Uint8 in Heq.
  - apply (f_equal (λ l, numericLE (take 4 (drop 8 l)))) in Heq.
    change (numericLE (rawBytesLE 4 (ToUint32 (Z.of_nat (length (data a)))))
            = numericLE (rawBytesLE 4 (ToUint32 (Z.of_nat (length (data b))))))
      in Heq.
    by rewrite !numericLE_Uint32 in Heq.
Qed.

Lemma dimension_inj (v w : Z) :
  (1 ≤ v ≤ 256)%Z → (1 ≤ w ≤ 256)%Z →
  (dimension v mod 256 = dimension w mod 256)%Z → v = w.
Proof.
  unfold dimension. intros Hv Hw.
  destruct (Z.geb_spec v 256), (Z.geb_spec w 256);
    rewrite ?Z.mod_small by lia; cbn; lia.
Qed.

Lemma payload_le_payloadSize (images : list Image) (img : Image) :
  img ∈ images → length (data img) ≤ payloadSize images.
Proof. intros Hin. by apply (sum_list_with_in _ (λ img, length (data img))). Qed.

(** Entries with small payloads and dimensions from 1 to 256 are
    determined by their directory and their image data. *)
Lemma directory_imageData_inj (xs ys : list Image) (o : nat) :
  length xs = length ys →
  Forall (λ img, (Z.of_nat (length (data img)) < 4294967296)%Z
                 ∧ (1 ≤ width img ≤ 256)%Z ∧ (1 ≤ height img ≤ 256)%Z) xs →
  Forall (λ img, (Z.of_nat (length (data img)) < 4294967296)%Z
                 ∧ (1 ≤ width img ≤ 256)%Z ∧ (1 ≤ height img ≤ 256)%Z) ys →
  directory xs o = directory ys o →
  imageData xs = imageData ys →
  xs = ys.
Proof.
  revert ys o. induction xs as [|a xs IH]; intros [|b ys] o Hlen Hxs Hys Hdir Hdat;
    try done.
  apply Forall_cons in Hxs as [(Ha & Hwa & Hha) Hxs].
  apply Forall_cons in Hys as [(Hb & Hwb & Hhb) Hys].
  cbn [directory] in Hdir.
  apply app_inj_1 in Hdir as [Hentry Hdir]; [|by rewrite !length_dirEntry].
  destruct (dirEntry_inv _ _ _ Hentry) as (Hw & Hh & Hl).
  rewrite !Z.mod_small in Hl by lia. apply Nat2Z.inj in Hl.
  apply dimension_inj in Hw; [|done..]. apply dimension_inj in Hh; [|done..].
  unfold imageData in Hdat. cbn [fmap list_fmap concat] in Hdat.
  apply app_inj_1 in Hdat as [Hdata Hdat]; [|done].
  rewrite Hl in Hdir.
  rewrite (IH ys (o + length (data b))); [|by injection Hlen|done..].
  destruct a, b. cbn [width height data] in *. by subst.
Qed.

Lemma within_limits_entries (images : list Image) :
  within_limits images →
  Forall (λ img, (Z.of_nat (length (data img)) < 4294967296)%Z
                 ∧ (1 ≤ width img ≤ 256)%Z ∧ (1 ≤ height img ≤ 256)%Z) images.
Proof.
  intros (_ & Hsize & Hdims). rewrite Forall_forall in Hdims.
  apply Forall_forall. intros img Hin.
  pose proof (payload_le_payloadSize _ _ Hin). split; [lia|]. by apply Hdims.
Qed.

(** X9.  Within the limits of the format (at most 65535 entries, a
    container below 2^32 bytes, dimensions from 1 to 256) the routine is
    injective: two inputs with the same container are the same list of
    entries, so every entry can be told from the file. *)
Theorem assembleIco_injective (xs ys : list Image) :
  within_limits xs → within_limits ys →
  assembleIco xs = assembleIco ys → xs = ys.
Proof.
  intros Hxs Hys Heq. rewrite !assembleIco_container in Heq.
  apply (inj Some) in Heq.
  assert (length xs = length ys) as Hlen.
  { pose proof (container_headerCount xs) as Hcount.
    rewrite Heq, container_headerCount in Hcount. injection Hcount as Hcount.
    destruct Hxs as (Hnx & _), Hys as (Hny & _).
    rewrite !Z.mod_small in Hcount by lia. lia. }
  unfold container in Heq. rewrite Hlen in Heq.
  apply app_inv_head in Heq.
  apply app_inj_1 in Heq as [Hdir Hdat];
    [|by rewrite !length_directory, Hlen].
  eapply directory_imageData_inj; eauto using within_limits_entries.
Qed.

Lemma assembleIco_injective_witness :
  within_limits twoImages ∧ within_limits twoImages'
  ∧ assembleIco twoImages = assembleIco twoImages'
  ∧ twoImages = twoImages'.
Proof.
  assert (within_limits twoImages) as H1.
  { split; [simpl; lia|]. split; [vm_compute; reflexivity|].
    repeat constructor; simpl; lia. }
  assert (within_limits twoImages') as H2.
  { split; [simpl; lia|]. split; [vm_compute; reflexivity|].
    repeat constructor; simpl; lia. }
  assert (assembleIco twoImages = assembleIco twoImages') as H3
    by (vm_compute; reflexivity).
  split; [exact H1|]. split; [exact H2|]. split; [exact H3|].
  exact (assembleIco_injective twoImages twoImages' H1 H2 H3).
Defined.

(** X10.  The container does not record by how much a dimension exceeds
    255: two inputs with the same payloads whose dimensions agree, or are
    both 256 or more, give the same container byte for byte. *)
Theorem sentinel_dimensions_indistinguishable (xs ys : list Image) :
  Forall2 same_up_to_sentinel xs ys →
  assembleIco xs = assembleIco ys.
Proof.
  intros Hsame. rewrite !assembleIco_container. f_equal.
  assert (Forall2 same_shape xs ys) as Hshape.
  { eapply Forall2_impl; [exact Hsame|].
    intros a b (Hd & Hw & Hh). unfold same_shape, dimension.
    rewrite Hd. repeat split.
    - destruct Hw as [->|[Ha Hb]]; [done|].
      by destruct (Z.geb_spec (width a) 256), (Z.geb_spec (width b) 256);
        try lia.
    - destruct Hh as [->|[Ha Hb]]; [done|].
      by destruct (Z.geb_spec (height a) 256), (Z.geb_spec (height b) 256);
        try lia. }
  assert (data <$> xs = data <$> ys) as Hdata.
  { clear Hshape. induction Hsame as [|a b xs ys (Hd & _) _ IH]; [done|].
    cbn [fmap list_fmap]. by rewrite Hd, IH. }
  unfold container, imageData.
  by rewrite (Forall2_length _ _ _ Hsame), Hdata,
    (directory_same_shape _ _ _ Hshape).
Qed.

Lemma sentinel_dimensions_witness :
  Forall2 same_up_to_sentinel sentinelImages sentinelImages'
  ∧ assembleIco sentinelImages = assembleIco sentinelImages'.
Proof.
  assert (Forall2 same_up_to_sentinel sentinelImages sentinelImages') as Hsame.
  { unfold sentinelImages, sentinelImages', same_up_to_sentinel.
    repeat (constructor;
      [split; [reflexivity|];
       split; (by left) || (right; simpl; lia) |]).
    constructor. }
  split; [exact Hsame|].
  exact (sentinel_dimensions_indistinguishable _ _ Hsame).
Defined.

(** X11.  The header and the directory depend on the payloads only
    through their lengths: two inputs with the same dimensions and the
    same payload lengths give buffers of the same length whose first
    6 + 16*N bytes are equal, whatever the payload bytes are. *)
Theorem directory_ignores_payload_bytes (xs ys : list Image) :
  Forall2 (λ a b, width a = width b ∧ height a = height b
                  ∧ length (data a) = length (data b)) xs ys →
  ∃ bx bY,
    assembleIco xs = Some bx ∧ assembleIco ys = Some bY
    ∧ length bx = length bY
    ∧ take (6 + 16 * length xs) bx = take (6 + 16 * length ys) bY.
Proof.
  intros Hsame.
  assert (Forall2 same_shape xs ys) as Hshape.
  { eapply Forall2_impl; [exact Hsame|].
    intros a b (Hw & Hh & Hl). unfold same_shape. by rewrite Hw, Hh, Hl. }
  assert (payloadSize xs = payloadSize ys) as Hsize.
  { clear Hshape. unfold payloadSize.
    induction Hsame as [|a b xs ys (_ & _ & Hl) _ IH]; [done|].
    cbn [sum_list_with]. by rewrite Hl, IH. }
  pose proof (Forall2_length _ _ _ Hsame) as Hlen.
  exists (container xs), (container ys).
  rewrite !assembleIco_container, !length_container, Hsize, Hlen.
  repeat split. unfold container.
  rewrite !app_assoc, !take_app_length'
    by (rewrite length_app, length_header, length_directory; lia).
  by rewrite Hlen, (directory_same_shape _ _ _ Hshape).
Qed.

Lemma directory_ignores_payload_witness :
  ∃ bx bY,
    assembleIco twoImages = Some bx ∧ assembleIco twoImages'' = Some bY
    ∧ length bx = length bY ∧ take 38 bx = take 38 bY.
Proof.
  destruct (directory_ignores_payload_bytes twoImages twoImages'')
    as (bx & bY & Hx & Hy & Hlen & Htake).
  { repeat constructor. }
  exists bx, bY. split; [exact Hx|]. split; [exact Hy|].
  split; [exact Hlen | exact Htake].
Defined.

End Ico.
